(** * Device scaffold of the integration template (device.py)

    A shallow embedding of [class Device(StatelessHTTPDevice)] and the
    proofs of its wiring properties.

    The Python object graph is kept as it is at run time: a [Device] holds a
    _reference_ to its [MediaPlayerAttributes] object, which lives in a heap
    and is mutated in place by [power_on] / [power_off].  The module logger
    [_LOG] is the list of the calls made on it, in order; which of them a
    handler then writes out is a matter of the logging configuration, set
    outside this module.  Coroutines never await
    anything but each other, so they run as plain sequential computations
    in a state-and-exception monad. *)

From stdpp Require Import base option strings list gmap.

Local Open Scope string_scope.

(** ** External declarations used by device.py *)

Module media_player.

(** Modelled from the spec: "an enumerated set of player states", the
    external [ucapi.media_player.States].  device.py names two of its
    members, [ON] and [OFF]; the others are the library's. *)
Inductive States : Set :=
| UNAVAILABLE | UNKNOWN | ON | OFF | PLAYING | PAUSED | STANDBY | BUFFERING.

#[global] Instance States_eq_dec : EqDecision States.
Proof. solve_decision. Defined.

End media_player.

Module const.

(** Modelled from the spec: [DeviceConfig] "holds identifier, name, address".
    The properties of the device give the first two the type [str] and the
    third [str | None]. *)
Record DeviceConfig : Set := mkDeviceConfig {
  identifier : string;
  name : string;
  address : option string
}.

End const.

Module helpers.

(** Modelled from the spec: "a loosely-typed bag of display attributes, only
    STATE populated", the external dataclass
    [ucapi_framework.helpers.MediaPlayerAttributes].  Besides [STATE] it has
    the fields device.py lists for an implementer to add ([VOLUME], [MUTED],
    [SOURCE], [SOURCE_LIST]); a field not passed to the constructor is
    [None]. *)
Record MediaPlayerAttributes : Set := mkMediaPlayerAttributes {
  STATE : option media_player.States;
  VOLUME : option Z;
  MUTED : option bool;
  SOURCE : option string;
  SOURCE_LIST : option (list string)
}.

(** [MediaPlayerAttributes(STATE=s)]: every other field takes its default. *)
Definition MediaPlayerAttributes_new (s : option media_player.States)
  : MediaPlayerAttributes :=
  {| STATE := s; VOLUME := None; MUTED := None;
     SOURCE := None; SOURCE_LIST := None |}.

(** [attrs.STATE = s], an in-place field assignment. *)
Definition set_STATE (s : option media_player.States)
    (a : MediaPlayerAttributes) : MediaPlayerAttributes :=
  {| STATE := s; VOLUME := VOLUME a; MUTED := MUTED a;
     SOURCE := SOURCE a; SOURCE_LIST := SOURCE_LIST a |}.

End helpers.

(** The constructor's two pass-through arguments; the device never looks
    inside them. *)
Inductive AbstractEventLoop : Set := EventLoop (id : nat).
Inductive BaseConfigManager : Set := ConfigManager (id : nat).

#[local] Unset Elimination Schemes.

(** Values a caller may put in [**kwargs] ([typing.Any]): the built-in
    scalars and containers, and every other object by its identity.  No
    method looks inside them. *)
Inductive Any : Set :=
| AnyNone
| AnyBool (b : bool)
| AnyInt (z : Z)
| AnyStr (s : string)
| AnyList (items : list Any)
| AnyDict (items : list (Any * Any))
| AnyObject (id : nat).

#[local] Set Elimination Schemes.

(** ** Run-time state *)

(** Address of a [MediaPlayerAttributes] object. *)
Definition loc : Set := nat.

(** Python exceptions, as far as [except Exception] tells them apart. *)
Inductive ExnClass : Set := BaseException | Exception.

Record Exn : Set := mkExn { exn_class : ExnClass; exn_msg : string }.

(** Records handed to the module logger [_LOG]. *)
Inductive Level : Set := DEBUG | WARNING | ERROR.

Inductive LogArg : Set :=
| ArgStr (s : string)
| ArgOptStr (s : option string)
| ArgState (s : option media_player.States)
| ArgExn (e : Exn).

Record LogRecord : Set := mkLogRecord {
  levelname : Level;
  msg : string;
  args : list LogArg
}.

#[global] Instance Level_eq_dec : EqDecision Level.
Proof. solve_decision. Defined.

(** The instance fields of a [Device].  [attributes] is a reference: the
    assignment [self.attributes.STATE = v] changes the object it points to,
    never the field itself. *)
Record DeviceObj : Set := mkDeviceObj {
  _device_config : const.DeviceConfig;
  _power_state : option media_player.States;
  attributes : loc
}.

Record World : Type := mkWorld {
  self : DeviceObj;
  heap : gmap loc helpers.MediaPlayerAttributes;
  log : list LogRecord
}.

Definition with_self (d : DeviceObj) (w : World) : World :=
  {| self := d; heap := heap w; log := log w |}.

Definition with_heap (h : gmap loc helpers.MediaPlayerAttributes) (w : World)
  : World :=
  {| self := self w; heap := h; log := log w |}.

Definition with_log (l : list LogRecord) (w : World) : World :=
  {| self := self w; heap := heap w; log := l |}.

(** ** The monad of method bodies

    A method either returns or raises; in both cases the mutations made so
    far stay. *)
Inductive outcome (A : Type) : Type :=
| Return (a : A)
| Raise (e : Exn).

Arguments Return {A} a.
Arguments Raise {A} e.

Definition M (A : Type) : Type := World -> outcome A * World.

Definition ret {A} (a : A) : M A := fun w => (Return a, w).

Definition bind {A B} (m : M A) (k : A -> M B) : M B :=
  fun w =>
    match m w with
    | (Return a, w') => k a w'
    | (Raise e, w') => (Raise e, w')
    end.

Definition raise {A} (e : Exn) : M A := fun w => (Raise e, w).

(** [try: body / except Exception as err: handler(err)].  Only instances of
    [Exception] are caught. *)
Definition try_except {A} (body : M A) (handler : Exn -> M A) : M A :=
  fun w =>
    match body w with
    | (Return a, w') => (Return a, w')
    | (Raise e, w') =>
        match exn_class e with
        | Exception => handler e w'
        | BaseException => (Raise e, w')
        end
    end.

Declare Scope py_scope.
Delimit Scope py_scope with py.
Notation "'let*' x := m 'in' k" := (bind m (fun x => k))
  (at level 10, x name, m at level 99, k at level 200, only parsing)
  : py_scope.
Notation "m ;; k" := (bind m (fun _ => k))
  (at level 100, k at level 200, right associativity, only parsing)
  : py_scope.
Local Open Scope py_scope.

Definition get_self : M DeviceObj := fun w => (Return (self w), w).

(** [_LOG.debug(msg, *args)] and [_LOG.error(msg, *args)]. *)
Definition emit (lv : Level) (m : string) (a : list LogArg) : M unit :=
  fun w => (Return tt, with_log (log w ++ [mkLogRecord lv m a]) w).

Definition _LOG_debug : string -> list LogArg -> M unit := emit DEBUG.
Definition _LOG_error : string -> list LogArg -> M unit := emit ERROR.

(** [self._power_state = v]. *)
Definition assign_power_state (v : option media_player.States) : M unit :=
  fun w =>
    (Return tt,
     with_self {| _device_config := _device_config (self w);
                  _power_state := v;
                  attributes := attributes (self w) |} w).

(** [self.attributes.STATE = v]: dereference the field, then store into the
    object found there.  A reference with no object behind it cannot arise
    in Python; the model raises there, so that nothing is proved about a
    store that silently did nothing. *)
Definition assign_attributes_STATE (v : option media_player.States) : M unit :=
  fun w =>
    let r := attributes (self w) in
    match heap w !! r with
    | Some a => (Return tt, with_heap (<[r := helpers.set_STATE v a]> (heap w)) w)
    | None => (Raise (mkExn Exception "dangling attributes reference"), w)
    end.

(** Truth value of a [str] in a condition: [len(s) != 0]. *)
Definition truthy (s : string) : bool :=
  negb (Nat.eqb (String.length s) 0).

(** ** Binding the arguments of a call

    Python binds the arguments before the body of a function runs, for an
    [async def] before the coroutine exists.  Keywords given at the call,
    several [**] mappings included, must be pairwise distinct, and a keyword
    must not name a parameter that a positional argument has filled; else
    the call raises [TypeError] and the body never starts. *)

(** [TypeError], a subclass of [Exception]. *)
Definition TypeError (m : string) : Exn := mkExn Exception m.

(** Whether the keywords [kwargs] may accompany a call that has filled the
    parameters [params] positionally. *)
Definition binds_keywords {V : Type} (params : list string)
    (kwargs : list (string * V)) : bool :=
  bool_decide (NoDup kwargs.*1) &&
  forallb (fun p => bool_decide (p ∉ kwargs.*1)) params.

(** ** The base class *)

Module StatelessHTTPDevice.

(** Modelled from the spec: the base class [StatelessHTTPDevice] belongs to
    the framework, not to this repository.  Its constructor "stores
    config": the value it leaves in [self._device_config], the field the
    properties of [Device] read, is the [device_config] it was given. *)
Definition __init__ (device_config : const.DeviceConfig)
    (loop : option AbstractEventLoop)
    (config_manager : option BaseConfigManager) : const.DeviceConfig :=
  device_config.

End StatelessHTTPDevice.

(** ** class Device *)

Module Device.

(** [__init__]: the base constructor, then no power state yet and a freshly
    allocated [MediaPlayerAttributes(STATE=None)]. *)
Definition __init__ (device_config : const.DeviceConfig)
    (loop : option AbstractEventLoop)
    (config_manager : option BaseConfigManager)
    (h : gmap loc helpers.MediaPlayerAttributes) (l : list LogRecord) : World :=
  let r := fresh (dom h) in
  {| self := {| _device_config :=
                  StatelessHTTPDevice.__init__ device_config loop
                    config_manager;
                _power_state := None;
                attributes := r |};
     heap := <[r := helpers.MediaPlayerAttributes_new None]> h;
     log := l |}.

(** *** Properties *)

Definition identifier (d : DeviceObj) : string :=
  const.identifier (_device_config d).

Definition name (d : DeviceObj) : string :=
  const.name (_device_config d).

Definition address (d : DeviceObj) : option string :=
  const.address (_device_config d).

Definition state (d : DeviceObj) : option media_player.States :=
  _power_state d.

(** [self.name if self.name else self.identifier]. *)
Definition log_id (d : DeviceObj) : string :=
  if truthy (name d) then name d else identifier d.

(** *** Connection management *)

Definition verify_connection_body : M unit :=
  let* d := get_self in
  _LOG_debug "[%s] Connection verified, state: %s"
             [ArgStr (log_id d); ArgState (_power_state d)].

Definition verify_connection_handler (err : Exn) : M unit :=
  let* d := get_self in
  _LOG_error "[%s] Connection verification failed: %s"
             [ArgStr (log_id d); ArgExn err] ;;
  raise err.

Definition verify_connection : M unit :=
  let* d := get_self in
  _LOG_debug "[%s] Verifying connection to device at %s"
             [ArgStr (log_id d); ArgOptStr (address d)] ;;
  try_except verify_connection_body verify_connection_handler.

(** *** Power control *)

Definition power_on : M unit :=
  let* d := get_self in
  _LOG_debug "[%s] Powering on" [ArgStr (log_id d)] ;;
  assign_power_state (Some media_player.ON) ;;
  assign_attributes_STATE (Some media_player.ON).

Definition power_off : M unit :=
  let* d := get_self in
  _LOG_debug "[%s] Powering off" [ArgStr (log_id d)] ;;
  assign_power_state (Some media_player.OFF) ;;
  assign_attributes_STATE (Some media_player.OFF).

Definition power_toggle : M unit :=
  let* d := get_self in
  _LOG_debug "[%s] Toggling power" [ArgStr (log_id d)] ;;
  let* d := get_self in
  if bool_decide (_power_state d = Some media_player.ON)
  then power_off
  else power_on.

(** *** Command sending *)

(** [send_command(self, command, **kwargs)], called as
    [device.send_command(command, **kwargs)]: [self] and [command] are
    filled positionally, so [kwargs] must bind beside them.  The body then
    logs the same line twice and ignores [kwargs]. *)
Definition send_command {V : Type} (command : string)
    (kwargs : list (string * V)) : M unit :=
  if binds_keywords ["self"; "command"] kwargs
  then
    let* d := get_self in
    _LOG_debug "[%s] Sending command: %s" [ArgStr (log_id d); ArgStr command] ;;
    let* d := get_self in
    _LOG_debug "[%s] Sending command: %s" [ArgStr (log_id d); ArgStr command]
  else
    raise (TypeError "send_command() got multiple values for an argument").

(** *** Helper methods *)

Definition get_device_attributes (entity_id : string) : M loc :=
  let* d := get_self in
  ret (attributes d).

End Device.

(** ** The calls the framework can make on a device *)

Inductive Value : Set :=
| VNone
| VAttributes (r : loc).

(** The keyword arguments of a [send_command] call that Python lets through
    to the body. *)
Record Kwargs : Set := mkKwargs {
  kw_items : list (string * Any);
  kw_binds : binds_keywords ["self"; "command"] kw_items = true
}.

(** The calls that reach a method.  A call rejected while its arguments are
    bound is not among them: it raises [TypeError] before any method code
    runs and leaves the device and the log as they were. *)
Inductive Call : Set :=
| call_verify_connection
| call_power_on
| call_power_off
| call_power_toggle
| call_send_command (command : string) (kwargs : Kwargs)
| call_get_device_attributes (entity_id : string).

Definition returning_None (m : M unit) : M Value :=
  m ;; ret VNone.

Definition invoke (c : Call) : M Value :=
  match c with
  | call_verify_connection => returning_None Device.verify_connection
  | call_power_on => returning_None Device.power_on
  | call_power_off => returning_None Device.power_off
  | call_power_toggle => returning_None Device.power_toggle
  | call_send_command command kwargs =>
      returning_None (Device.send_command command (kw_items kwargs))
  | call_get_device_attributes entity_id =>
      let* r := Device.get_device_attributes entity_id in ret (VAttributes r)
  end.

(** A history of calls on one device.  An exception goes to the caller; the
    object stays as the failed call left it and later calls still reach it. *)
Fixpoint run (cs : list Call) (w : World) : World :=
  match cs with
  | [] => w
  | c :: cs' => run cs' (snd (invoke c w))
  end.

(** ** Observations on a world *)

(** [self.attributes], dereferenced. *)
Definition deref_attributes (w : World) : option helpers.MediaPlayerAttributes :=
  heap w !! attributes (self w).

(** [self.attributes.STATE]. *)
Definition attributes_STATE (w : World)
  : option (option media_player.States) :=
  helpers.STATE <$> deref_attributes w.

(** The attributes reference points to an object. *)
Definition live (w : World) : Prop := is_Some (deref_attributes w).

(** [self._power_state == self.attributes.STATE]. *)
Definition consistent (w : World) : Prop :=
  attributes_STATE w = Some (_power_state (self w)).

#[global] Instance live_dec w : Decision (live w).
Proof. unfold live. apply _. Defined.

#[global] Instance consistent_dec w : Decision (consistent w).
Proof. unfold consistent. apply _. Defined.

(** Same object fields apart from [STATE]. *)
Definition same_but_STATE (a b : helpers.MediaPlayerAttributes) : Prop :=
  helpers.VOLUME a = helpers.VOLUME b /\
  helpers.MUTED a = helpers.MUTED b /\
  helpers.SOURCE a = helpers.SOURCE b /\
  helpers.SOURCE_LIST a = helpers.SOURCE_LIST b.

(** No [ERROR] record among [l]. *)
Definition no_error (l : list LogRecord) : Prop :=
  Forall (fun r => levelname r <> ERROR) l.

(** ** Worlds named in the statements *)

(** The world [power_on] / [power_off] leave behind: [s] in both places and
    one more [DEBUG] record. *)
Definition powered (s : media_player.States) (m : string)
    (a : helpers.MediaPlayerAttributes) (w : World) : World :=
  {| self := {| _device_config := _device_config (self w);
                _power_state := Some s;
                attributes := attributes (self w) |};
     heap := <[attributes (self w) := helpers.set_STATE (Some s) a]> (heap w);
     log := log w ++ [mkLogRecord DEBUG m [ArgStr (Device.log_id (self w))]] |}.

(** The record [power_toggle] logs before branching. *)
Definition toggling (w : World) : World :=
  with_log
    (log w ++ [mkLogRecord DEBUG "[%s] Toggling power"
                 [ArgStr (Device.log_id (self w))]]) w.

(** What a call that sets the power to [s] guarantees of the world [w']
    it leaves, given the world [w] it started in: [s] in both places, the
    same configuration, the same attributes object with its other fields
    untouched, every other object untouched, one [DEBUG] record logged. *)
Definition power_post (s : media_player.States) (w w' : World) : Prop :=
  _power_state (self w') = Some s /\
  attributes_STATE w' = Some (Some s) /\
  _device_config (self w') = _device_config (self w) /\
  attributes (self w') = attributes (self w) /\
  (exists a a', deref_attributes w = Some a /\ deref_attributes w' = Some a' /\
                same_but_STATE a a') /\
  (forall r, r <> attributes (self w) -> heap w' !! r = heap w !! r) /\
  (exists rec, log w' = (log w ++ [rec])%list /\ levelname rec = DEBUG).

(** A configured device straight after construction in an empty store, and
    the same device with an unnamed configuration entry. *)
Definition demo_config : const.DeviceConfig :=
  const.mkDeviceConfig "living-room" "Living Room" (Some "192.168.1.20").

Definition unnamed_config : const.DeviceConfig :=
  const.mkDeviceConfig "living-room" "" None.

Definition demo_world : World :=
  Device.__init__ demo_config None None ∅ [].

(** ** Vocabulary for histories of calls *)

(** The three calls that assign the power state. *)
Definition is_power_call (c : Call) : bool :=
  match c with
  | call_power_on | call_power_off | call_power_toggle => true
  | _ => false
  end.

(** How many calls on [_LOG] the body of each method makes on its way. *)
Definition records_logged (c : Call) : nat :=
  match c with
  | call_verify_connection => 2
  | call_power_on => 1
  | call_power_off => 1
  | call_power_toggle => 2
  | call_send_command _ _ => 2
  | call_get_device_attributes _ => 0
  end.

(** A [DEBUG] record whose first argument, the one printed in the leading
    ["[%s]"], is [id]. *)
Definition tagged (id : string) (r : LogRecord) : Prop :=
  levelname r = DEBUG /\ head (args r) = Some (ArgStr id).

(** The state a call assigns, if it assigns one, given the current
    [_power_state]. *)
Definition power_target (c : Call) (ps : option media_player.States)
  : option media_player.States :=
  match c with
  | call_power_on => Some media_player.ON
  | call_power_off => Some media_player.OFF
  | call_power_toggle =>
      if bool_decide (ps = Some media_player.ON)
      then Some media_player.OFF
      else Some media_player.ON
  | _ => None
  end.

(** What a call does to the device fields and to the heap, the log apart. *)
Definition device_step (c : Call) (d : DeviceObj)
    (h : gmap loc helpers.MediaPlayerAttributes)
  : DeviceObj * gmap loc helpers.MediaPlayerAttributes :=
  match power_target c (_power_state d) with
  | Some s =>
      ({| _device_config := _device_config d;
          _power_state := Some s;
          attributes := attributes d |},
       alter (helpers.set_STATE (Some s)) (attributes d) h)
  | None => (d, h)
  end.

(** [w'] is [w] up to the power state, the [STATE] of the attributes object
    and the log. *)
Definition power_variant (w w' : World) : Prop :=
  _device_config (self w') = _device_config (self w) /\
  attributes (self w') = attributes (self w) /\
  (heap w' = heap w \/
   exists s, heap w' = alter (helpers.set_STATE s) (attributes (self w)) (heap w)).

(** The attributes object before and after: both absent, or both present
    and equal outside [STATE]. *)
Definition attributes_kept (w w' : World) : Prop :=
  match deref_attributes w, deref_attributes w' with
  | Some a, Some a' => same_but_STATE a a'
  | None, None => True
  | _, _ => False
  end.

(** * Properties of the scaffold *)

(** ** The model on a concrete device *)

Example fresh_device :
  (self demo_world, deref_attributes demo_world, log demo_world)
  = ({| _device_config := demo_config; _power_state := None; attributes := 0 |},
     Some (helpers.MediaPlayerAttributes_new None), []).
Proof. vm_compute. reflexivity. Qed.

Example toggle_fresh_device :
  let w := run [call_power_toggle] demo_world in
  (_power_state (self w), attributes_STATE w, length (log w))
  = (Some media_player.ON, Some (Some media_player.ON), 2).
Proof. vm_compute. reflexivity. Qed.

Example toggle_toggle_fresh_device :
  let w := run [call_power_toggle; call_power_toggle] demo_world in
  (_power_state (self w), attributes_STATE w)
  = (Some media_player.OFF, Some (Some media_player.OFF)).
Proof. vm_compute. reflexivity. Qed.

Example earlier_reference_sees_later_state :
  match Device.get_device_attributes "media_player.living-room" demo_world with
  | (Return r, w) => helpers.STATE <$> heap (run [call_power_on] w) !! r
  | (Raise _, _) => None
  end = Some (Some media_player.ON).
Proof. vm_compute. reflexivity. Qed.

Example log_id_of_unnamed :
  Device.log_id (self (Device.__init__ unnamed_config None None ∅ []))
  = "living-room".
Proof. reflexivity. Qed.

Example send_command_only_logs :
  let w := snd (Device.send_command "volume_up" [("step", AnyInt 5)] demo_world) in
  (self w, heap w, levelname <$> log w)
  = (self demo_world, heap demo_world, [DEBUG; DEBUG]).
Proof. vm_compute. reflexivity. Qed.

Example send_command_binding :
  binds_keywords ["self"; "command"] [("step", AnyInt 5); ("mute", AnyBool true)]
  = true /\
  binds_keywords ["self"; "command"] [("step", AnyInt 5); ("step", AnyInt 6)]
  = false /\
  binds_keywords ["self"; "command"] [("self", AnyNone)] = false /\
  binds_keywords ["self"; "command"] [("command", AnyStr "mute")] = false /\
  binds_keywords ["self"; "command"] ([] : list (string * Any)) = true.
Proof. vm_compute. by repeat split. Qed.

Example send_command_rejected_leaves_no_trace :
  snd (Device.send_command "volume_up"
         [("step", AnyInt 5); ("step", AnyInt 6)] demo_world)
  = demo_world.
Proof. reflexivity. Qed.

Example send_command_in_a_history :
  let w := run [call_power_on;
                call_send_command "volume_up"
                  (mkKwargs [("step", AnyInt 5)] eq_refl)] demo_world in
  (_power_state (self w), attributes_STATE w, length (log w))
  = (Some media_player.ON, Some (Some media_player.ON), 3).
Proof. vm_compute. reflexivity. Qed.

(** ** Running the method bodies *)

Ltac run_body :=
  unfold Device.power_toggle, Device.power_on, Device.power_off,
    Device.send_command, Device.verify_connection,
    Device.verify_connection_body, Device.verify_connection_handler,
    Device.get_device_attributes, returning_None, try_except, bind, ret,
    raise, get_self, _LOG_debug, _LOG_error, emit, assign_power_state,
    assign_attributes_STATE, with_self, with_heap, with_log;
  cbn.

Lemma power_on_run (w : World) (a : helpers.MediaPlayerAttributes) :
  deref_attributes w = Some a ->
  Device.power_on w
  = (Return tt, powered media_player.ON "[%s] Powering on" a w).
Proof.
  unfold deref_attributes. intros Ha. run_body. by rewrite Ha.
Qed.

Lemma power_off_run (w : World) (a : helpers.MediaPlayerAttributes) :
  deref_attributes w = Some a ->
  Device.power_off w
  = (Return tt, powered media_player.OFF "[%s] Powering off" a w).
Proof.
  unfold deref_attributes. intros Ha. run_body. by rewrite Ha.
Qed.

Lemma deref_powered s m a w :
  deref_attributes (powered s m a w) = Some (helpers.set_STATE (Some s) a).
Proof. unfold deref_attributes, powered. cbn. apply lookup_insert_eq. Qed.

Lemma consistent_powered s m a w : consistent (powered s m a w).
Proof.
  unfold consistent, attributes_STATE. by rewrite deref_powered.
Qed.

Lemma consistent_live w : consistent w -> live w.
Proof.
  unfold consistent, attributes_STATE, live.
  destruct (deref_attributes w); [eauto | discriminate].
Qed.

Lemma power_toggle_unfold (w : World) :
  Device.power_toggle w
  = if bool_decide (_power_state (self w) = Some media_player.ON)
    then Device.power_off (toggling w)
    else Device.power_on (toggling w).
Proof.
  unfold Device.power_toggle, bind, get_self, _LOG_debug, emit, toggling.
  cbn. by case_bool_decide.
Qed.

Lemma power_toggle_run (w : World) (a : helpers.MediaPlayerAttributes) :
  deref_attributes w = Some a ->
  Device.power_toggle w
  = (Return tt,
     if bool_decide (_power_state (self w) = Some media_player.ON)
     then powered media_player.OFF "[%s] Powering off" a (toggling w)
     else powered media_player.ON "[%s] Powering on" a (toggling w)).
Proof.
  intros Ha. rewrite power_toggle_unfold.
  case_bool_decide; [apply power_off_run | apply power_on_run]; exact Ha.
Qed.

Lemma powered_post s m a w :
  deref_attributes w = Some a -> power_post s w (powered s m a w).
Proof.
  intros Ha. unfold power_post.
  split; [reflexivity |].
  split; [apply consistent_powered |].
  split; [reflexivity |].
  split; [reflexivity |].
  split.
  { exists a, (helpers.set_STATE (Some s) a).
    rewrite deref_powered. by repeat split. }
  split.
  { intros r Hr. cbn. by apply lookup_insert_ne. }
  eexists. by split.
Qed.

(** ** Power control *)

(** C1: on a device whose attributes object exists, [power_toggle()] returns
    normally; when the power state was [ON] it leaves [OFF], and from every
    other state ([OFF], any other member of the enumeration, or [None]) it
    leaves [ON] -- in [_power_state] and in [attributes.STATE] alike. *)
Theorem power_toggle_result (w : World) :
  live w ->
  exists w',
    Device.power_toggle w = (Return tt, w') /\
    (Device.state (self w) = Some media_player.ON ->
       Device.state (self w') = Some media_player.OFF /\
       attributes_STATE w' = Some (Some media_player.OFF)) /\
    (Device.state (self w) <> Some media_player.ON ->
       Device.state (self w') = Some media_player.ON /\
       attributes_STATE w' = Some (Some media_player.ON)).
Proof.
  intros [a Ha]. eexists. split; [by apply power_toggle_run |].
  unfold Device.state.
  case_bool_decide as Hon; split; intros H; try contradiction;
    (split; [reflexivity | apply consistent_powered]).
Qed.

Lemma power_toggle_result_witness :
  live demo_world /\
  exists w',
    Device.power_toggle demo_world = (Return tt, w') /\
    (Device.state (self demo_world) = Some media_player.ON ->
       Device.state (self w') = Some media_player.OFF /\
       attributes_STATE w' = Some (Some media_player.OFF)) /\
    (Device.state (self demo_world) <> Some media_player.ON ->
       Device.state (self w') = Some media_player.ON /\
       attributes_STATE w' = Some (Some media_player.ON)).
Proof.
  assert (Hlive : live demo_world) by (vm_compute; eexists; reflexivity).
  split; [exact Hlive | exact (power_toggle_result demo_world Hlive)].
Defined.

(** C2: on a device whose attributes object exists, [power_on()] returns
    normally with [_power_state] and [attributes.STATE] both [ON], and
    [power_off()] with both [OFF], whatever they were before.  Nothing else
    about the device changes: same configuration, same attributes object,
    its other fields as they were, no other object touched.  The call logs
    one [DEBUG] record. *)
Theorem power_on_off_effect (w : World) :
  live w ->
  (exists w', Device.power_on w = (Return tt, w') /\
              power_post media_player.ON w w') /\
  (exists w', Device.power_off w = (Return tt, w') /\
              power_post media_player.OFF w w').
Proof.
  intros [a Ha]. split; eexists.
  - split; [by apply power_on_run | by apply powered_post].
  - split; [by apply power_off_run | by apply powered_post].
Qed.

Lemma power_on_off_effect_witness :
  live demo_world /\
  (exists w', Device.power_on demo_world = (Return tt, w') /\
              power_post media_player.ON demo_world w') /\
  (exists w', Device.power_off demo_world = (Return tt, w') /\
              power_post media_player.OFF demo_world w').
Proof.
  assert (Hlive : live demo_world) by (vm_compute; eexists; reflexivity).
  split; [exact Hlive | exact (power_on_off_effect demo_world Hlive)].
Defined.

(** ** Calls that leave the device alone *)

Lemma verify_connection_run (w : World) :
  Device.verify_connection w
  = (Return tt,
     with_log
       (log w ++
        [mkLogRecord DEBUG "[%s] Verifying connection to device at %s"
           [ArgStr (Device.log_id (self w)); ArgOptStr (Device.address (self w))];
         mkLogRecord DEBUG "[%s] Connection verified, state: %s"
           [ArgStr (Device.log_id (self w)); ArgState (_power_state (self w))]])
       w).
Proof. run_body. by rewrite <- app_assoc. Qed.

Lemma send_command_run {V : Type} (command : string)
    (kwargs : list (string * V)) (w : World) :
  binds_keywords ["self"; "command"] kwargs = true ->
  Device.send_command command kwargs w
  = (Return tt,
     with_log
       (log w ++
        [mkLogRecord DEBUG "[%s] Sending command: %s"
           [ArgStr (Device.log_id (self w)); ArgStr command];
         mkLogRecord DEBUG "[%s] Sending command: %s"
           [ArgStr (Device.log_id (self w)); ArgStr command]])
       w).
Proof.
  intros Hb. unfold Device.send_command. rewrite Hb.
  run_body. by rewrite <- app_assoc.
Qed.

Lemma send_command_rejected {V : Type} (command : string)
    (kwargs : list (string * V)) (w : World) :
  binds_keywords ["self"; "command"] kwargs = false ->
  Device.send_command command kwargs w
  = (Raise (TypeError "send_command() got multiple values for an argument"),
     w).
Proof. intros Hb. unfold Device.send_command. by rewrite Hb. Qed.

Lemma send_command_call_run (command : string) (kwargs : Kwargs) (w : World) :
  Device.send_command command (kw_items kwargs) w
  = (Return tt,
     with_log
       (log w ++
        [mkLogRecord DEBUG "[%s] Sending command: %s"
           [ArgStr (Device.log_id (self w)); ArgStr command];
         mkLogRecord DEBUG "[%s] Sending command: %s"
           [ArgStr (Device.log_id (self w)); ArgStr command]])
       w).
Proof. apply send_command_run, kw_binds. Qed.

Lemma get_device_attributes_run (entity_id : string) (w : World) :
  Device.get_device_attributes entity_id w = (Return (attributes (self w)), w).
Proof. reflexivity. Qed.

Lemma returning_None_run (m : M unit) (w w' : World) :
  m w = (Return tt, w') -> returning_None m w = (Return VNone, w').
Proof. intros H. unfold returning_None, bind, ret. by rewrite H. Qed.

(** ** What no call ever changes *)

(** The configuration and the attributes reference survive every call,
    returning or raising. *)
Lemma invoke_frame (c : Call) (w : World) :
  _device_config (self (snd (invoke c w))) = _device_config (self w) /\
  attributes (self (snd (invoke c w))) = attributes (self w).
Proof.
  destruct c; cbn [invoke].
  - by rewrite (returning_None_run _ _ _ (verify_connection_run w)).
  - run_body. by destruct (heap w !! attributes (self w)).
  - run_body. by destruct (heap w !! attributes (self w)).
  - run_body. case_bool_decide; cbn;
      by destruct (heap w !! attributes (self w)).
  - by rewrite (returning_None_run _ _ _ (send_command_call_run command kwargs w)).
  - done.
Qed.

Lemma run_frame (cs : list Call) (w : World) :
  _device_config (self (run cs w)) = _device_config (self w) /\
  attributes (self (run cs w)) = attributes (self w).
Proof.
  revert w. induction cs as [| c cs IH]; intros w; cbn [run]; [done |].
  destruct (IH (snd (invoke c w))) as [-> ->]. apply invoke_frame.
Qed.

(** ** The two places that track the power state *)

Lemma init_consistent cfg loop cm h l :
  consistent (Device.__init__ cfg loop cm h l).
Proof.
  unfold consistent, attributes_STATE, deref_attributes, Device.__init__.
  cbn. by rewrite lookup_insert_eq.
Qed.

Lemma invoke_consistent (c : Call) (w : World) :
  consistent w ->
  (exists v, fst (invoke c w) = Return v) /\ consistent (snd (invoke c w)).
Proof.
  intros Hc. destruct (consistent_live w Hc) as [a Ha].
  destruct c; cbn [invoke].
  - rewrite (returning_None_run _ _ _ (verify_connection_run w)). eauto.
  - rewrite (returning_None_run _ _ _ (power_on_run w a Ha)).
    split; [eauto | apply consistent_powered].
  - rewrite (returning_None_run _ _ _ (power_off_run w a Ha)).
    split; [eauto | apply consistent_powered].
  - rewrite (returning_None_run _ _ _ (power_toggle_run w a Ha)).
    split; [eauto |]. cbn [snd]. case_bool_decide; apply consistent_powered.
  - rewrite (returning_None_run _ _ _ (send_command_call_run command kwargs w)).
    eauto.
  - eauto.
Qed.

Lemma run_consistent (cs : list Call) (w : World) :
  consistent w -> consistent (run cs w).
Proof.
  revert w. induction cs as [| c cs IH]; intros w Hc; cbn [run]; [done |].
  apply IH. by apply invoke_consistent.
Qed.

(** C3: [_power_state == attributes.STATE] holds after construction, where
    both are [None]; every call of the class that starts from a world where
    it holds returns normally and leaves a world where it holds; hence it
    holds after every history of calls on a constructed device. *)
Theorem state_tracking_invariant :
  (forall cfg loop cm h l,
     let w := Device.__init__ cfg loop cm h l in
     _power_state (self w) = None /\ attributes_STATE w = Some None /\
     consistent w) /\
  (forall c w,
     consistent w ->
     (exists v, fst (invoke c w) = Return v) /\
     consistent (snd (invoke c w))) /\
  (forall cfg loop cm h l cs,
     consistent (run cs (Device.__init__ cfg loop cm h l))).
Proof.
  split; [| split].
  - intros cfg loop cm h l w.
    pose proof (init_consistent cfg loop cm h l) as Hc. fold w in Hc.
    split; [reflexivity |]. split; [exact Hc | exact Hc].
  - exact invoke_consistent.
  - intros. apply run_consistent, init_consistent.
Qed.

Lemma state_tracking_invariant_witness :
  consistent demo_world /\
  consistent (snd (invoke call_power_toggle demo_world)).
Proof.
  assert (Hc : consistent demo_world) by (vm_compute; reflexivity).
  split; [exact Hc |].
  exact (proj2 (proj1 (proj2 state_tracking_invariant)
                  call_power_toggle demo_world Hc)).
Defined.

(** C4: [verify_connection()] returns normally from every world.  The device
    fields and the heap are as before; the guarded body returns from every
    world, so the [except] branch never runs: nothing is logged at [ERROR]
    and nothing is re-raised. *)
Theorem verify_connection_inert (w : World) :
  (forall w0, exists w1, Device.verify_connection_body w0 = (Return tt, w1)) /\
  exists w',
    Device.verify_connection w = (Return tt, w') /\
    self w' = self w /\ heap w' = heap w /\
    exists l, log w' = (log w ++ l)%list /\ no_error l.
Proof.
  split.
  - intros w0. eexists. reflexivity.
  - eexists. split; [apply verify_connection_run |].
    split; [reflexivity |]. split; [reflexivity |].
    eexists. split; [reflexivity |].
    unfold no_error. repeat constructor; discriminate.
Qed.

(** C5, as stated, fails: keyword arguments that repeat the parameter
    [command] do not bind, and the call raises [TypeError] instead of
    returning [None]. *)
Lemma send_command_keyword_clash :
  Device.send_command "volume_up" [("command", AnyStr "mute")] demo_world
  = (Raise (TypeError "send_command() got multiple values for an argument"),
     demo_world) /\
  fst (Device.send_command "volume_up" [("command", AnyStr "mute")] demo_world)
  <> Return tt.
Proof. split; [reflexivity | discriminate]. Qed.

(** C5, amended: [send_command(command, **kwargs)] routes no command.  For
    every command and every keyword arguments, of whatever values, the
    device fields (power state, attributes reference, configuration) and
    the heap are exactly as before.  When the keywords bind -- pairwise
    distinct, none named [self] or [command] -- the call returns [None],
    having only logged, at [DEBUG]; otherwise it raises [TypeError] and has
    logged nothing.  A call in a history has keywords that bind, and
    returns [None]. *)
Theorem send_command_routes_nothing :
  (forall (V : Type) (command : string) (kwargs : list (string * V))
          (w : World),
     exists o w',
       Device.send_command command kwargs w = (o, w') /\
       self w' = self w /\ heap w' = heap w /\
       if binds_keywords ["self"; "command"] kwargs
       then o = Return tt /\
            exists l, log w' = (log w ++ l)%list /\
                      Forall (fun r => levelname r = DEBUG) l
       else o = Raise (TypeError
                         "send_command() got multiple values for an argument") /\
            log w' = log w) /\
  (forall (command : string) (kwargs : Kwargs) (w : World),
     fst (invoke (call_send_command command kwargs) w) = Return VNone).
Proof.
  split.
  - intros V command kwargs w.
    destruct (binds_keywords ["self"; "command"] kwargs) eqn:Hb.
    + eexists. eexists. split; [by apply send_command_run |].
      split; [reflexivity |]. split; [reflexivity |].
      split; [reflexivity |].
      eexists. split; [reflexivity |]. by repeat constructor.
    + eexists. eexists. split; [by apply send_command_rejected |].
      by repeat split.
  - intros command kwargs w. cbn [invoke].
    by rewrite (returning_None_run _ _ _ (send_command_call_run command kwargs w)).
Qed.

(** C6: [get_device_attributes(entity_id)] returns the reference held in
    [self.attributes] and changes nothing, so two calls with different
    entity ids in the same world give the same result; and after any
    history of calls that reference is still the object allocated by the
    constructor. *)
Theorem get_device_attributes_same_object :
  (forall entity_id w,
     Device.get_device_attributes entity_id w
     = (Return (attributes (self w)), w)) /\
  (forall e1 e2 w,
     Device.get_device_attributes e1 w = Device.get_device_attributes e2 w) /\
  (forall cfg loop cm h l cs entity_id,
     fst (Device.get_device_attributes entity_id
            (run cs (Device.__init__ cfg loop cm h l)))
     = Return (attributes (self (Device.__init__ cfg loop cm h l)))).
Proof.
  split; [| split].
  - reflexivity.
  - reflexivity.
  - intros. rewrite get_device_attributes_run. cbn [fst].
    by rewrite (proj2 (run_frame cs _)).
Qed.

(** C7: on a device built from [device_config], after any history of calls,
    [identifier], [name] and [address] are the fields of [device_config]. *)
Theorem config_properties cfg loop cm h l cs :
  let d := self (run cs (Device.__init__ cfg loop cm h l)) in
  Device.identifier d = const.identifier cfg /\
  Device.name d = const.name cfg /\
  Device.address d = const.address cfg.
Proof.
  intros d. unfold Device.identifier, Device.name, Device.address, d.
  by rewrite (proj1 (run_frame cs _)).
Qed.

(** C8: for every configuration the constructor leaves [_power_state]
    unset and [attributes] pointing to a new [MediaPlayerAttributes] object,
    one that was not in the heap before, with [STATE] (and every other
    field) unset; the [state] property of the new device is [None]. *)
Theorem init_unset cfg loop cm h l :
  let w := Device.__init__ cfg loop cm h l in
  _power_state (self w) = None /\
  h !! attributes (self w) = None /\
  deref_attributes w = Some (helpers.MediaPlayerAttributes_new None) /\
  attributes_STATE w = Some None /\
  Device.state (self w) = None.
Proof.
  intros w. unfold w, attributes_STATE, deref_attributes, Device.__init__.
  cbn. rewrite lookup_insert_eq. repeat split.
  apply not_elem_of_dom, is_fresh.
Qed.

(** ** The log identifier *)

Lemma truthy_nonempty (s : string) : truthy s = true <-> s <> "".
Proof. destruct s; cbn; split; congruence. Qed.

(** C9: [log_id] is the device name when the name is not the empty string,
    and the device identifier when it is; a device configured with the name
    [""] has its identifier as [log_id], whatever has been called on it. *)
Theorem log_id_fallback :
  (forall d, Device.name d <> "" -> Device.log_id d = Device.name d) /\
  (forall d, Device.name d = "" -> Device.log_id d = Device.identifier d) /\
  (forall ident addr loop cm h l cs,
     Device.log_id
       (self (run cs (Device.__init__ (const.mkDeviceConfig ident "" addr)
                        loop cm h l)))
     = ident).
Proof.
  split; [| split].
  - intros d Hn. unfold Device.log_id.
    by rewrite (proj2 (truthy_nonempty _) Hn).
  - intros d Hn. unfold Device.log_id. by rewrite Hn.
  - intros. unfold Device.log_id, Device.name, Device.identifier.
    by rewrite (proj1 (run_frame cs _)).
Qed.

Lemma log_id_fallback_witness :
  Device.log_id (self demo_world) = "Living Room" /\
  Device.log_id (self (Device.__init__ unnamed_config None None ∅ []))
  = "living-room".
Proof.
  split.
  - apply (proj1 log_id_fallback (self demo_world)). vm_compute. discriminate.
  - apply (proj1 (proj2 log_id_fallback)). vm_compute. reflexivity.
Defined.

(** ** Toggling twice *)

Lemma set_STATE_same (a : helpers.MediaPlayerAttributes) s s' :
  helpers.STATE a = s ->
  helpers.set_STATE s (helpers.set_STATE s' a) = a.
Proof. intros <-. by destruct a. Qed.

Lemma power_toggle_from_ON (w : World) (a : helpers.MediaPlayerAttributes) :
  deref_attributes w = Some a ->
  _power_state (self w) = Some media_player.ON ->
  Device.power_toggle w
  = (Return tt, powered media_player.OFF "[%s] Powering off" a (toggling w)).
Proof.
  intros Ha Hon. rewrite (power_toggle_run w a Ha).
  by rewrite bool_decide_eq_true_2.
Qed.

Lemma power_toggle_from_other (w : World) (a : helpers.MediaPlayerAttributes) :
  deref_attributes w = Some a ->
  _power_state (self w) <> Some media_player.ON ->
  Device.power_toggle w
  = (Return tt, powered media_player.ON "[%s] Powering on" a (toggling w)).
Proof.
  intros Ha Hon. rewrite (power_toggle_run w a Ha).
  by rewrite bool_decide_eq_false_2.
Qed.

(** Setting the power to [s'] and then back to the [s] it had gives the
    device fields and the heap of the start. *)
Lemma powered_back (s s' : media_player.States) (m m' : string)
    (a : helpers.MediaPlayerAttributes) (w : World) :
  deref_attributes w = Some a ->
  helpers.STATE a = Some s ->
  _power_state (self w) = Some s ->
  let w2 := powered s m' (helpers.set_STATE (Some s') a)
              (toggling (powered s' m a (toggling w))) in
  self w2 = self w /\ heap w2 = heap w.
Proof.
  destruct w as [[cfg ps r] hp lg]. unfold deref_attributes. cbn.
  intros Ha HS ->. split; [reflexivity |].
  rewrite insert_insert_eq. apply insert_id.
  by rewrite Ha, set_STATE_same.
Qed.

(** C10: on a device whose two state fields agree (every constructed device,
    after any calls), two [power_toggle()] calls in a row both return
    normally.  From [ON] or [OFF] they give back the device fields and the
    heap they started from, so [_power_state] and [attributes.STATE] are
    what they were.  From the unset state they leave [OFF] in both places,
    not [None]. *)
Theorem power_toggle_twice (w : World) :
  consistent w ->
  exists w1 w2,
    Device.power_toggle w = (Return tt, w1) /\
    Device.power_toggle w1 = (Return tt, w2) /\
    (_power_state (self w) = Some media_player.ON \/
     _power_state (self w) = Some media_player.OFF ->
       self w2 = self w /\ heap w2 = heap w /\
       _power_state (self w2) = _power_state (self w) /\
       attributes_STATE w2 = attributes_STATE w) /\
    (_power_state (self w) = None ->
       _power_state (self w2) = Some media_player.OFF /\
       attributes_STATE w2 = Some (Some media_player.OFF) /\
       _power_state (self w2) <> _power_state (self w)).
Proof.
  intros Hc. destruct (consistent_live w Hc) as [a Ha].
  assert (HS : helpers.STATE a = _power_state (self w)).
  { unfold consistent, attributes_STATE in Hc. rewrite Ha in Hc.
    cbn in Hc. congruence. }
  assert (Hrestored : forall w2 : World,
            self w2 = self w /\ heap w2 = heap w ->
            self w2 = self w /\ heap w2 = heap w /\
            _power_state (self w2) = _power_state (self w) /\
            attributes_STATE w2 = attributes_STATE w).
  { intros w2 [Hs Hh]. unfold attributes_STATE, deref_attributes.
    by rewrite Hs, Hh. }
  destruct (decide (_power_state (self w) = Some media_player.ON)) as [Hon | Hon].
  - (* ON: off, then on again *)
    eexists. eexists.
    split; [by apply power_toggle_from_ON |].
    split; [apply power_toggle_from_other; [apply deref_powered | discriminate] |].
    split.
    + intros _. apply Hrestored.
      apply (powered_back media_player.ON media_player.OFF); congruence.
    + congruence.
  - (* anything else: on, then off *)
    eexists. eexists.
    split; [by apply power_toggle_from_other |].
    split; [apply power_toggle_from_ON; [apply deref_powered | reflexivity] |].
    split.
    + intros [Hp | Hp]; [contradiction |]. apply Hrestored.
      apply (powered_back media_player.OFF media_player.ON); congruence.
    + intros Hp. split; [reflexivity |].
      split; [apply consistent_powered |].
      rewrite Hp. discriminate.
Qed.

(** A device that has been switched on, and a fresh one. *)
Lemma power_toggle_twice_witness :
  consistent (run [call_power_on] demo_world) /\
  exists w1 w2,
    Device.power_toggle (run [call_power_on] demo_world) = (Return tt, w1) /\
    Device.power_toggle w1 = (Return tt, w2) /\
    self w2 = self (run [call_power_on] demo_world) /\
    heap w2 = heap (run [call_power_on] demo_world).
Proof.
  assert (Hc : consistent (run [call_power_on] demo_world))
    by (vm_compute; reflexivity).
  split; [exact Hc |].
  destruct (power_toggle_twice _ Hc) as (w1 & w2 & H1 & H2 & Hr & _).
  exists w1, w2. split; [exact H1 |]. split; [exact H2 |].
  assert (Hon : _power_state (self (run [call_power_on] demo_world))
                = Some media_player.ON) by (vm_compute; reflexivity).
  destruct (Hr (or_introl Hon)) as (Hs & Hh & _). by split.
Defined.

(** * Histories of calls *)

(** ** One call, the log apart *)

Lemma insert_as_alter (h : gmap loc helpers.MediaPlayerAttributes) (r : loc)
    (f : helpers.MediaPlayerAttributes -> helpers.MediaPlayerAttributes)
    (a : helpers.MediaPlayerAttributes) :
  h !! r = Some a -> <[r := f a]> h = alter f r h.
Proof.
  intros Ha. apply map_eq. intros j. destruct (decide (r = j)) as [<- | Hne].
  - by rewrite lookup_insert_eq, lookup_alter_eq, Ha.
  - by rewrite lookup_insert_ne, lookup_alter_ne.
Qed.

Lemma alter_absent (h : gmap loc helpers.MediaPlayerAttributes) (r : loc)
    (f : helpers.MediaPlayerAttributes -> helpers.MediaPlayerAttributes) :
  h !! r = None -> alter f r h = h.
Proof.
  intros Ha. apply map_eq. intros j. destruct (decide (r = j)) as [<- | Hne].
  - by rewrite lookup_alter_eq, Ha.
  - by rewrite lookup_alter_ne.
Qed.

Lemma set_STATE_twice s s' (a : helpers.MediaPlayerAttributes) :
  helpers.set_STATE s (helpers.set_STATE s' a) = helpers.set_STATE s a.
Proof. reflexivity. Qed.

Lemma alter_set_STATE_twice s s' r (h : gmap loc helpers.MediaPlayerAttributes) :
  alter (helpers.set_STATE s) r (alter (helpers.set_STATE s') r h)
  = alter (helpers.set_STATE s) r h.
Proof.
  apply map_eq. intros j. destruct (decide (r = j)) as [<- | Hne].
  - rewrite !lookup_alter_eq. by destruct (h !! r).
  - by rewrite !lookup_alter_ne.
Qed.

(** The device fields and the heap a call leaves are those of
    [device_step], whether it returns or raises. *)
Lemma invoke_device (c : Call) (w : World) :
  (self (snd (invoke c w)), heap (snd (invoke c w)))
  = device_step c (self w) (heap w).
Proof.
  destruct c; unfold device_step; cbn [invoke power_target].
  - by rewrite (returning_None_run _ _ _ (verify_connection_run w)).
  - run_body. destruct (heap w !! attributes (self w)) eqn:E; cbn.
    + by rewrite (insert_as_alter _ _ _ _ E).
    + by rewrite alter_absent.
  - run_body. destruct (heap w !! attributes (self w)) eqn:E; cbn.
    + by rewrite (insert_as_alter _ _ _ _ E).
    + by rewrite alter_absent.
  - run_body. case_bool_decide; cbn;
      destruct (heap w !! attributes (self w)) eqn:E; cbn;
      first [by rewrite (insert_as_alter _ _ _ _ E) | by rewrite alter_absent].
  - by rewrite (returning_None_run _ _ _ (send_command_call_run command kwargs w)).
  - reflexivity.
Qed.

Lemma invoke_self (c : Call) (w : World) :
  self (snd (invoke c w)) = fst (device_step c (self w) (heap w)).
Proof. by rewrite <- invoke_device. Qed.

Lemma invoke_heap (c : Call) (w : World) :
  heap (snd (invoke c w)) = snd (device_step c (self w) (heap w)).
Proof. by rewrite <- invoke_device. Qed.

Lemma invoke_power_state (c : Call) (w : World) :
  _power_state (self (snd (invoke c w)))
  = match power_target c (_power_state (self w)) with
    | Some s => Some s
    | None => _power_state (self w)
    end.
Proof.
  rewrite invoke_self. unfold device_step.
  by destruct (power_target c (_power_state (self w))).
Qed.

Lemma run_app (cs cs' : list Call) (w : World) :
  run (cs ++ cs') w = run cs' (run cs w).
Proof.
  revert w. induction cs as [| c cs IH]; intros w; cbn; [done | apply IH].
Qed.

(** The device fields and the heap after a history depend on the device
    fields and the heap before it, not on the log. *)
Lemma run_device_ext (cs : list Call) (w1 w2 : World) :
  self w1 = self w2 -> heap w1 = heap w2 ->
  self (run cs w1) = self (run cs w2) /\ heap (run cs w1) = heap (run cs w2).
Proof.
  revert w1 w2. induction cs as [| c cs IH]; intros w1 w2 Hs Hh; [done |].
  cbn [run]. apply IH.
  - by rewrite !invoke_self, Hs, Hh.
  - by rewrite !invoke_heap, Hs, Hh.
Qed.

(** ** What a history can change *)

Lemma power_variant_refl (w : World) : power_variant w w.
Proof. unfold power_variant. auto. Qed.

Lemma power_variant_trans (w1 w2 w3 : World) :
  power_variant w1 w2 -> power_variant w2 w3 -> power_variant w1 w3.
Proof.
  intros (Hc1 & Hr1 & Hh1) (Hc2 & Hr2 & Hh2).
  split; [congruence |]. split; [congruence |].
  rewrite Hr1 in Hh2.
  destruct Hh2 as [-> | [s ->]]; [exact Hh1 |].
  right. exists s. destruct Hh1 as [-> | [s' ->]]; [done |].
  apply alter_set_STATE_twice.
Qed.

Lemma invoke_variant (c : Call) (w : World) : power_variant w (snd (invoke c w)).
Proof.
  unfold power_variant. rewrite invoke_self, invoke_heap. unfold device_step.
  destruct (power_target c (_power_state (self w))); cbn; eauto.
Qed.

Lemma run_variant (cs : list Call) (w : World) : power_variant w (run cs w).
Proof.
  revert w. induction cs as [| c cs IH]; intros w; cbn [run].
  - apply power_variant_refl.
  - eapply power_variant_trans; [apply invoke_variant | apply IH].
Qed.

(** ** The log *)

Lemma log_id_config (d d' : DeviceObj) :
  _device_config d = _device_config d' -> Device.log_id d = Device.log_id d'.
Proof.
  intros H. unfold Device.log_id, Device.name, Device.identifier. by rewrite H.
Qed.

Lemma invoke_log (c : Call) (w : World) :
  exists l,
    log (snd (invoke c w)) = (log w ++ l)%list /\
    length l = records_logged c /\
    Forall (tagged (Device.log_id (self w))) l.
Proof.
  destruct c; cbn [invoke records_logged].
  - rewrite (returning_None_run _ _ _ (verify_connection_run w)).
    eexists. split; [reflexivity |]. split; [reflexivity |].
    by repeat constructor.
  - run_body. destruct (heap w !! attributes (self w)); cbn;
      (eexists; split; [reflexivity |]; split; [reflexivity |];
       by repeat constructor).
  - run_body. destruct (heap w !! attributes (self w)); cbn;
      (eexists; split; [reflexivity |]; split; [reflexivity |];
       by repeat constructor).
  - run_body. case_bool_decide; cbn;
      destruct (heap w !! attributes (self w)); cbn; rewrite <- app_assoc;
      (eexists; split; [reflexivity |]; split; [reflexivity |];
       by repeat constructor).
  - rewrite (returning_None_run _ _ _ (send_command_call_run command kwargs w)).
    eexists. split; [reflexivity |]. split; [reflexivity |].
    by repeat constructor.
  - exists []. cbn. by rewrite app_nil_r.
Qed.

Lemma run_log (cs : list Call) (w : World) :
  exists l,
    log (run cs w) = (log w ++ l)%list /\
    length l = sum_list (records_logged <$> cs) /\
    Forall (tagged (Device.log_id (self w))) l.
Proof.
  revert w. induction cs as [| c cs IH]; intros w; cbn [run].
  - exists []. cbn. by rewrite app_nil_r.
  - destruct (invoke_log c w) as (l1 & Hl1 & Hn1 & Ht1).
    destruct (IH (snd (invoke c w))) as (l2 & Hl2 & Hn2 & Ht2).
    exists (l1 ++ l2)%list. split; [| split].
    + by rewrite Hl2, Hl1, app_assoc.
    + rewrite length_app, Hn1, Hn2. reflexivity.
    + apply Forall_app. split; [exact Ht1 |].
      rewrite (log_id_config (self w) (self (snd (invoke c w)))); [exact Ht2 |].
      symmetry. apply invoke_frame.
Qed.

(** X1: whatever is called on a device, in whatever order and whether the
    calls return or raise, the log only grows, and every record added is a
    [DEBUG] record whose first argument is the [log_id] the device had at
    the start: nothing is logged at [WARNING] or [ERROR], and no line
    carries another tag. *)
Theorem history_logs_tagged_debug (cs : list Call) (w : World) :
  exists l,
    log (run cs w) = (log w ++ l)%list /\
    Forall (tagged (Device.log_id (self w))) l.
Proof.
  destruct (run_log cs w) as (l & Hl & _ & Ht). by exists l.
Qed.

(** X2: the number of logging calls a history makes on [_LOG] is the sum
    of a fixed count per call -- two for [verify_connection],
    [power_toggle] and [send_command], one for [power_on] and [power_off],
    none for [get_device_attributes] -- whatever the state of the device.
    It counts the calls handed to the logger, not the lines a handler
    writes; a [send_command] rejected while its arguments are bound is no
    call of a history and makes none. *)
Theorem history_log_length (cs : list Call) (w : World) :
  length (log (run cs w))
  = length (log w) + sum_list (records_logged <$> cs).
Proof.
  destruct (run_log cs w) as (l & Hl & Hn & _).
  by rewrite Hl, length_app, Hn.
Qed.

(** ** Power calls and the rest *)

(** X3: [power_on()] and [power_off()] forget the past: after any history
    of calls, the device fields and the heap they leave are the ones they
    leave when called first thing.  In particular each is idempotent. *)
Theorem power_call_absorbs_history (cs : list Call) (w : World) :
  (self (run (cs ++ [call_power_on]) w) = self (run [call_power_on] w) /\
   heap (run (cs ++ [call_power_on]) w) = heap (run [call_power_on] w)) /\
  (self (run (cs ++ [call_power_off]) w) = self (run [call_power_off] w) /\
   heap (run (cs ++ [call_power_off]) w) = heap (run [call_power_off] w)).
Proof.
  destruct (run_variant cs w) as (Hc & Hr & Hh).
  split; rewrite run_app; cbn [run]; rewrite !invoke_self, !invoke_heap;
    unfold device_step; cbn; rewrite Hc, Hr;
    (split; [reflexivity |]);
    (destruct Hh as [-> | [s ->]];
       [reflexivity | apply alter_set_STATE_twice]).
Qed.

(** The power state after a history: untouched without a power call, [ON]
    or [OFF] with one. *)
Lemma run_power_state (cs : list Call) (w : World) :
  if existsb is_power_call cs
  then _power_state (self (run cs w)) = Some media_player.ON \/
       _power_state (self (run cs w)) = Some media_player.OFF
  else _power_state (self (run cs w)) = _power_state (self w).
Proof.
  revert w. induction cs as [| c cs IH]; intros w; cbn [run existsb]; [done |].
  specialize (IH (snd (invoke c w))).
  rewrite invoke_power_state in IH.
  destruct (existsb is_power_call cs).
  - rewrite orb_true_r. exact IH.
  - rewrite orb_false_r, IH.
    destruct c; cbn; auto. case_bool_decide; auto.
Qed.

(** X5: on a constructed device the power state stays unset exactly as long
    as none of [power_on], [power_off], [power_toggle] has been called --
    [verify_connection] in particular never sets it -- and from the first
    such call on it is [ON] or [OFF], never another member of the
    enumeration. *)
Theorem power_state_unset_until_power_call cfg loop cm h l (cs : list Call) :
  let w := run cs (Device.__init__ cfg loop cm h l) in
  bool_decide (Device.state (self w) = None)
  = negb (existsb is_power_call cs) /\
  (Device.state (self w) = None \/
   Device.state (self w) = Some media_player.ON \/
   Device.state (self w) = Some media_player.OFF).
Proof.
  intros w. unfold Device.state, w.
  pose proof (run_power_state cs (Device.__init__ cfg loop cm h l)) as H.
  destruct (existsb is_power_call cs); cbn [negb].
  - destruct H as [-> | ->]; auto.
  - rewrite H. auto.
Qed.

(** X6: calls other than the three power calls can be struck from a
    history: the device fields and the heap at the end are the same without
    them. *)
Theorem non_power_calls_erasable (cs : list Call) (w : World) :
  self (run cs w)
  = self (run (filter (fun c => is_power_call c = true) cs) w) /\
  heap (run cs w)
  = heap (run (filter (fun c => is_power_call c = true) cs) w).
Proof.
  revert w. induction cs as [| c cs IH]; intros w; [done |].
  rewrite filter_cons. cbn [run]. case_decide as Hp.
  - cbn [run]. apply IH.
  - destruct (IH (snd (invoke c w))) as [-> ->].
    apply run_device_ext.
    + rewrite invoke_self. unfold device_step.
      by destruct c.
    + rewrite invoke_heap. unfold device_step.
      by destruct c.
Qed.

(** X4: [k >= 1] calls of [power_toggle()] in a row, on a device whose
    attributes object exists, leave the power [ON] when [k] is odd and the
    device did not start [ON], or [k] is even and it did; otherwise [OFF].
    [attributes.STATE] ends equal to [_power_state]. *)
Theorem power_toggle_parity (n : nat) (w : World) :
  live w ->
  let w' := run (replicate (S n) call_power_toggle) w in
  _power_state (self w')
  = Some (if xorb (Nat.odd (S n))
               (bool_decide (_power_state (self w) = Some media_player.ON))
          then media_player.ON else media_player.OFF) /\
  attributes_STATE w' = Some (_power_state (self w')).
Proof.
  intros [a Ha] w'. split.
  - unfold w'. clear a Ha w'. revert w.
    induction n as [| n IH]; intros w.
    + cbn [replicate run]. rewrite invoke_power_state. cbn.
      by case_bool_decide.
    + change (replicate (S (S n)) call_power_toggle)
        with (call_power_toggle :: replicate (S n) call_power_toggle).
      cbn [run]. rewrite IH, invoke_power_state.
      rewrite (Nat.odd_succ (S n)), <- Nat.negb_odd.
      cbn [power_target].
      destruct (Nat.odd (S n));
        repeat (case_bool_decide; try congruence; cbn); congruence.
  - unfold w'. cbn [replicate run]. apply run_consistent. cbn [invoke].
    rewrite (returning_None_run _ _ _ (power_toggle_run w a Ha)). cbn [snd].
    case_bool_decide; apply consistent_powered.
Qed.

Lemma power_toggle_parity_witness :
  live demo_world /\
  _power_state (self (run (replicate 3 call_power_toggle) demo_world))
  = Some media_player.ON.
Proof.
  assert (Hlive : live demo_world) by (vm_compute; eexists; reflexivity).
  split; [exact Hlive |].
  exact (proj1 (power_toggle_parity 2 demo_world Hlive)).
Defined.

(** ** The attributes object over time *)

Lemma run_other_cells (cs : list Call) (w : World) (r : loc) :
  r <> attributes (self w) -> heap (run cs w) !! r = heap w !! r.
Proof.
  intros Hne. destruct (run_variant cs w) as (_ & _ & [-> | [s ->]]);
    [reflexivity | by apply lookup_alter_ne].
Qed.

(** X8: no history of calls allocates or frees an object, touches an object
    other than the device's own attributes, or changes a field of that one
    other than [STATE]. *)
Theorem history_frame (cs : list Call) (w : World) :
  dom (heap (run cs w)) = dom (heap w) /\
  (forall r, r <> attributes (self w) -> heap (run cs w) !! r = heap w !! r) /\
  attributes_kept w (run cs w).
Proof.
  destruct (run_variant cs w) as (_ & Hr & Hh).
  unfold attributes_kept, deref_attributes. rewrite Hr.
  destruct Hh as [-> | [s ->]].
  - split; [reflexivity |]. split; [reflexivity |].
    by destruct (heap w !! attributes (self w)).
  - split; [apply dom_alter_L |].
    split; [intros r Hne; by apply lookup_alter_ne |].
    rewrite lookup_alter_eq.
    by destruct (heap w !! attributes (self w)).
Qed.

(** X7: the framework may keep the object [get_device_attributes] gave it.
    On a device whose two state fields agree, whatever is called afterwards,
    the [STATE] read through that earlier reference is the value the
    [state] property has then. *)
Theorem attributes_reference_tracks_state (entity_id : string)
    (cs : list Call) (w : World) :
  consistent w ->
  exists r,
    fst (Device.get_device_attributes entity_id w) = Return r /\
    helpers.STATE <$> heap (run cs w) !! r
    = Some (Device.state (self (run cs w))).
Proof.
  intros Hc. exists (attributes (self w)). split; [reflexivity |].
  pose proof (run_consistent cs w Hc) as Hc'.
  unfold consistent, attributes_STATE, deref_attributes in Hc'.
  by rewrite (proj2 (run_frame cs w)) in Hc'.
Qed.

Lemma attributes_reference_tracks_state_witness :
  consistent demo_world /\
  exists r,
    fst (Device.get_device_attributes "media_player.living-room" demo_world)
    = Return r /\
    helpers.STATE <$>
      heap (run [call_power_on; call_verify_connection] demo_world) !! r
    = Some (Device.state
              (self (run [call_power_on; call_verify_connection] demo_world))).
Proof.
  assert (Hc : consistent demo_world) by (vm_compute; reflexivity).
  split; [exact Hc |].
  exact (attributes_reference_tracks_state "media_player.living-room"
           [call_power_on; call_verify_connection] demo_world Hc).
Defined.

(** X9: a second device constructed in the same store gets an attributes
    object of its own, and nothing called on the second device changes the
    attributes object of the first. *)
Theorem second_device_does_not_share cfg loop cm (cs : list Call) (w : World) :
  live w ->
  let w2 := Device.__init__ cfg loop cm (heap w) (log w) in
  attributes (self w2) <> attributes (self w) /\
  heap (run cs w2) !! attributes (self w) = heap w !! attributes (self w).
Proof.
  intros Hlive w2.
  assert (Hne : attributes (self w2) <> attributes (self w)).
  { unfold w2, Device.__init__. cbn. intros Heq.
    apply (is_fresh (dom (heap w))). rewrite Heq.
    by apply elem_of_dom. }
  split; [exact Hne |].
  rewrite (run_other_cells cs w2 _ (not_eq_sym Hne)).
  unfold w2, Device.__init__. cbn [heap self attributes] in *.
  by apply lookup_insert_ne.
Qed.

Lemma second_device_does_not_share_witness :
  live demo_world /\
  heap (run [call_power_on; call_power_toggle]
          (Device.__init__ unnamed_config None None
             (heap demo_world) (log demo_world)))
    !! attributes (self demo_world)
  = heap demo_world !! attributes (self demo_world).
Proof.
  assert (Hlive : live demo_world) by (vm_compute; eexists; reflexivity).
  split; [exact Hlive |].
  exact (proj2 (second_device_does_not_share unnamed_config None None
                  [call_power_on; call_power_toggle] demo_world Hlive)).
Defined.

(** ** Repairing a drifted device *)

Lemma variant_live (w w' : World) : power_variant w w' -> live w -> live w'.
Proof.
  intros (_ & Hr & Hh) [a Ha]. unfold live, deref_attributes in *.
  rewrite Hr. destruct Hh as [-> | [s ->]]; [eauto |].
  rewrite lookup_alter_eq, Ha. eauto.
Qed.

Lemma power_call_consistent (c : Call) (w : World) :
  live w -> is_power_call c = true -> consistent (snd (invoke c w)).
Proof.
  intros [a Ha] Hp. destruct c; try discriminate; cbn [invoke].
  - rewrite (returning_None_run _ _ _ (power_on_run w a Ha)).
    apply consistent_powered.
  - rewrite (returning_None_run _ _ _ (power_off_run w a Ha)).
    apply consistent_powered.
  - rewrite (returning_None_run _ _ _ (power_toggle_run w a Ha)).
    cbn [snd]. case_bool_decide; apply consistent_powered.
Qed.

(** X10: should [_power_state] and [attributes.STATE] ever disagree on a
    device whose attributes object exists, the first power call brings them
    back in line, and they stay so; a history without a power call leaves
    them agreeing or disagreeing as they were. *)
Theorem power_call_restores_consistency (cs : list Call) (w : World) :
  live w ->
  if existsb is_power_call cs
  then consistent (run cs w)
  else attributes_STATE (run cs w) = attributes_STATE w /\
       _power_state (self (run cs w)) = _power_state (self w).
Proof.
  revert w. induction cs as [| c cs IH]; intros w Hlive; [done |].
  cbn [existsb run].
  destruct (is_power_call c) eqn:Hp; cbn [orb].
  - by apply run_consistent, power_call_consistent.
  - assert (Hs : self (snd (invoke c w)) = self w)
      by (rewrite invoke_self; unfold device_step; by destruct c).
    assert (Hh : heap (snd (invoke c w)) = heap w)
      by (rewrite invoke_heap; unfold device_step; by destruct c).
    specialize (IH (snd (invoke c w))
                  (variant_live _ _ (invoke_variant c w) Hlive)).
    destruct (existsb is_power_call cs); [exact IH |].
    destruct IH as [-> ->].
    unfold attributes_STATE, deref_attributes. by rewrite Hs, Hh.
Qed.

Lemma power_call_restores_consistency_witness :
  live demo_world /\
  consistent (run [call_verify_connection; call_power_off] demo_world).
Proof.
  assert (Hlive : live demo_world) by (vm_compute; eexists; reflexivity).
  split; [exact Hlive |].
  exact (power_call_restores_consistency
           [call_verify_connection; call_power_off] demo_world Hlive).
Defined.

(** ** The log identifier, again *)

(** X12: [log_id] is the empty string only for a device whose name and
    identifier are both empty. *)
Theorem log_id_empty_iff (d : DeviceObj) :
  Device.log_id d = "" <-> Device.name d = "" /\ Device.identifier d = "".
Proof.
  unfold Device.log_id. destruct (Device.name d) as [| c s] eqn:Hn; cbn.
  - split; [by intros -> | by intros [_ ->]].
  - split; [discriminate | by intros [? _]].
Qed.
